(** * ChargeTunis backend: the Luhn validator and its callers

    A shallow embedding of [src/main.py] and [src/schemas.py]:
    [luhn_check], [confirm_payment] and the availability loop of
    [list_stations], together with the part of the Python runtime they
    rest on ([str.isdigit], [int] on a one-character string, integer
    [%] and [max], exceptions). *)

From Stdlib Require Import ZArith NArith Lia DecimalString.
From stdpp Require Import gmap strings list.

Local Open Scope Z_scope.

(** ** The Python runtime the handlers use *)

Module Py.

(** A Python [str] is a sequence of Unicode code points. *)
Definition char : Type := N.
Definition str : Type := list N.

(** An ASCII literal of the source as a [str]. *)
Definition lit (s : string) : str :=
  Ascii.N_of_ascii <$> String.list_ascii_of_string s.

(** Exceptions the modelled code can meet. *)
Inductive exn : Type :=
  | ValueError
  | TypeError
  | ZeroDivisionError.

(** The outcome of a call: a value, or a raised exception. *)
Inductive result (A : Type) : Type :=
  | Ok (a : A)
  | Raise (e : exn).
Arguments Ok {A} a.
Arguments Raise {A} e.

#[global] Instance result_bind : MBind result := fun A B k r =>
  match r with
  | Ok a => k a
  | Raise e => Raise e
  end.

#[global] Instance result_fmap : FMap result := fun A B f r =>
  match r with
  | Ok a => Ok (f a)
  | Raise e => Raise e
  end.

(** Code points with Numeric_Type=Decimal (general category Nd) come in
    runs of ten, zero first; these are the zeros of the runs
    (Unicode 14.0, the database of CPython 3.11). *)
Definition decimal_zeros : list N :=
  [ 0x30; 0x660; 0x6f0; 0x7c0; 0x966; 0x9e6; 0xa66; 0xae6; 0xb66; 0xbe6;
    0xc66; 0xce6; 0xd66; 0xde6; 0xe50; 0xed0; 0xf20; 0x1040; 0x1090;
    0x17e0; 0x1810; 0x1946; 0x19d0; 0x1a80; 0x1a90; 0x1b50; 0x1bb0;
    0x1c40; 0x1c50; 0xa620; 0xa8d0; 0xa900; 0xa9d0; 0xa9f0; 0xaa50;
    0xabf0; 0xff10; 0x104a0; 0x10d30; 0x11066; 0x110f0; 0x11136;
    0x111d0; 0x112f0; 0x11450; 0x114d0; 0x11650; 0x116c0; 0x11730;
    0x118e0; 0x11950; 0x11c50; 0x11d50; 0x11da0; 0x16a60; 0x16ac0;
    0x16b50; 0x1d7ce; 0x1d7d8; 0x1d7e2; 0x1d7ec; 0x1d7f6; 0x1e140;
    0x1e2f0; 0x1e950; 0x1fbf0 ]%N.

(** Code points with Numeric_Type=Digit that are not decimal:
    superscripts, subscripts, circled and dingbat digits and the like,
    as inclusive ranges. *)
Definition digit_only_ranges : list (N * N) :=
  [ (0xb2, 0xb3); (0xb9, 0xb9); (0x1369, 0x1371); (0x19da, 0x19da);
    (0x2070, 0x2070); (0x2074, 0x2079); (0x2080, 0x2089);
    (0x2460, 0x2468); (0x2474, 0x247c); (0x2488, 0x2490);
    (0x24ea, 0x24ea); (0x24f5, 0x24fd); (0x24ff, 0x24ff);
    (0x2776, 0x277e); (0x2780, 0x2788); (0x278a, 0x2792);
    (0x10a40, 0x10a43); (0x10e60, 0x10e68); (0x11052, 0x1105a);
    (0x1f100, 0x1f10a) ]%N.

(** The decimal value of a code point, when it has one. *)
Fixpoint decimal_in (zeros : list N) (c : char) : option Z :=
  match zeros with
  | [] => None
  | z :: zeros' =>
      if ((z <=? c) && (c <? z + 10))%N then Some (Z.of_N (c - z))
      else decimal_in zeros' c
  end.

Definition decimal_value (c : char) : option Z := decimal_in decimal_zeros c.

(** [d.isdecimal()] for a one-character string. *)
Definition isdecimal (c : char) : bool :=
  match decimal_value c with Some _ => true | None => false end.

(** [d.isdigit()] for a one-character string: Numeric_Type is Decimal
    or Digit. *)
Definition isdigit (c : char) : bool :=
  isdecimal c
  || existsb (fun r => (fst r <=? c) && (c <=? snd r))%N digit_only_ranges.

(** [int(d)] for a one-character string [d] that is not white space:
    the decimal value, or [ValueError] (invalid literal). *)
Definition int (c : char) : result Z :=
  match decimal_value c with
  | Some v => Ok v
  | None => Raise ValueError
  end.

(** Integer [a % b]: floored, [ZeroDivisionError] for [b = 0]. *)
Definition mod_ (a b : Z) : result Z :=
  if b =? 0 then Raise ZeroDivisionError else Ok (a mod b).

(** One row of the ASCII part of the tables: [isdigit] holds of 0-9
    alone, and the decimal value of each is its offset from ["0"]. *)
Definition ascii_row_ok (c : char) : bool :=
  if ((48 <=? c) && (c <=? 57))%N
  then isdigit c && bool_decide (decimal_value c = Some (Z.of_N c - 48))
  else negb (isdigit c).

End Py.

Import Py.

(** ** [luhn_check] *)

(** [[int(d) for d in card_number if d.isdigit()]]: the conversions run
    left to right and the first failing one ends the comprehension. *)
Fixpoint digits_of (card_number : str) : result (list Z) :=
  match card_number with
  | [] => Ok []
  | d :: rest =>
      if isdigit d then
        v ← int d; vs ← digits_of rest; Ok (v :: vs)
      else digits_of rest
  end.

(** The body of the [for i, d in enumerate(digits)] loop on one digit. *)
Definition luhn_digit (parity i d : Z) : Z :=
  if i mod 2 =? parity then
    let d := d * 2 in
    if d >? 9 then d - 9 else d
  else d.

(** The loop, from index [i] with [checksum] accumulated so far. *)
Fixpoint luhn_loop (parity i : Z) (digits : list Z) (checksum : Z) : Z :=
  match digits with
  | [] => checksum
  | d :: rest => luhn_loop parity (i + 1) rest (checksum + luhn_digit parity i d)
  end.

Definition luhn_check (card_number : str) : result bool :=
  digits ← digits_of card_number;
  if Z.of_nat (length digits) <? 12 then Ok false
  else
    let checksum := 0 in
    let parity := Z.of_nat (length digits) mod 2 in
    let checksum := luhn_loop parity 0 digits checksum in
    Ok (checksum mod 10 =? 0).

(** ** [luhn_check], statement by statement

    The same function as a relation between the argument and the outcome
    of a call, one rule per path through the source. *)

(** The list comprehension of line 26. *)
Inductive comprehension : str -> result (list Z) -> Prop :=
  | comp_end :
      comprehension [] (Ok [])
  | comp_skip d rest r :
      isdigit d = false ->
      comprehension rest r ->
      comprehension (d :: rest) r
  | comp_invalid d rest e :
      isdigit d = true -> int d = Raise e ->
      comprehension (d :: rest) (Raise e)
  | comp_keep d rest v r :
      isdigit d = true -> int d = Ok v ->
      comprehension rest r ->
      comprehension (d :: rest) ((fun vs => v :: vs) <$> r).

(** The variables the [for] loop of lines 31-36 reads and writes. *)
Record loop_state : Type := LoopState {
  idx : Z;
  pending : list Z;
  checksum : Z
}.

(** One iteration of the loop. *)
Inductive loop_step (parity : Z) : loop_state -> loop_state -> Prop :=
  | step_doubled_folded i d rest c :
      i mod 2 = parity -> d * 2 > 9 ->
      loop_step parity (LoopState i (d :: rest) c)
                       (LoopState (i + 1) rest (c + (d * 2 - 9)))
  | step_doubled i d rest c :
      i mod 2 = parity -> d * 2 <= 9 ->
      loop_step parity (LoopState i (d :: rest) c)
                       (LoopState (i + 1) rest (c + d * 2))
  | step_plain i d rest c :
      i mod 2 <> parity ->
      loop_step parity (LoopState i (d :: rest) c)
                       (LoopState (i + 1) rest (c + d)).

(** A call of [luhn_check] and its outcome. *)
Inductive luhn_check_runs : str -> result bool -> Prop :=
  | run_raises card_number e :
      comprehension card_number (Raise e) ->
      luhn_check_runs card_number (Raise e)
  | run_too_short card_number digits :
      comprehension card_number (Ok digits) ->
      Z.of_nat (length digits) < 12 ->
      luhn_check_runs card_number (Ok false)
  | run_checksum card_number digits final :
      comprehension card_number (Ok digits) ->
      12 <= Z.of_nat (length digits) ->
      rtc (loop_step (Z.of_nat (length digits) mod 2))
          (LoopState 0 digits 0) final ->
      pending final = [] ->
      luhn_check_runs card_number (Ok (bool_decide (checksum final mod 10 = 0))).

(** ** The Luhn sum as the specification words it

    Digits are taken from the most significant; the digit at index [i]
    is doubled when the parity of [i] equals the parity of the digit
    count, a doubled digit above 9 loses 9, and all are summed. *)
Definition luhn_term (count i : nat) (d : Z) : Z :=
  if decide (Nat.even i = Nat.even count) then
    if decide (2 * d > 9) then 2 * d - 9 else 2 * d
  else d.

Definition luhn_sum (digits : list Z) : Z :=
  foldr Z.add 0 (imap (luhn_term (length digits)) digits).

(** The decimal digits of a string once every character that is not a
    decimal digit is discarded. *)
Definition decimal_digits (s : str) : list Z :=
  omap decimal_value s.

(** ** [schemas.py] *)

Record PaymentConfirmIn : Type := {
  client_secret : str;
  card_number : str;
  exp_month : Z;
  exp_year : Z;
  cvc : str
}.

Record PaymentResult : Type := {
  status : str;
  transaction_id : option str;
  message : option str
}.

(** ** [confirm_payment]

    [uuid4_hex] is the value [uuid4().hex] takes in this call. *)
Definition confirm_payment (payload : PaymentConfirmIn) (uuid4_hex : str)
  : result PaymentResult :=
  valid ← luhn_check (card_number payload);
  if negb valid then
    Ok {| status := lit "failed";
          transaction_id := None;
          message := Some (lit "Invalid card number") |}
  else
    let txn_id := lit "txn_" ++ take 12 uuid4_hex in
    Ok {| status := lit "succeeded";
          transaction_id := Some txn_id;
          message := Some (lit "Payment confirmed") |}.

(** ** [list_stations] *)

(** The values of a station document that the handler reads or writes.
    The float fields of a station (latitude, longitude, price) are
    never read by the handler and are left out of the dictionaries. *)
Inductive value : Type :=
  | VNone
  | VInt (z : Z)
  | VStr (s : str)
  | VObjectId (hex : str).

(** [str(v)]. *)
Definition str_of (v : value) : str :=
  match v with
  | VNone => lit "None"
  | VInt z => lit (NilZero.string_of_int (Z.to_int z))
  | VStr s => s
  | VObjectId hex => hex
  end.

(** The operand of an integer operation: anything but an [int] makes
    [capacity + 1] raise [TypeError]. *)
Definition as_int (v : value) : result Z :=
  match v with
  | VInt z => Ok z
  | _ => Raise TypeError
  end.

(** [it.get("capacity", 4)]. *)
Definition capacity_of (it : gmap string value) : value :=
  default (VInt 4) (it !! "capacity").

(** The body of the loop over the stored documents: [it] is updated in
    place and then appended to [result]. *)
Definition station_view (now : Z) (it : gmap string value)
  : result (gmap string value) :=
  capacity ← as_int (capacity_of it);
  occupied ← mod_ now (capacity + 1);
  let available := Z.max 0 (capacity - occupied) in
  let it := <["available" := VInt available]> it in
  let it := <["id" := VStr (str_of (default VNone (it !! "_id")))]> it in
  Ok it.

Fixpoint stations_loop (now : Z) (items result : list (gmap string value))
  : Py.result (list (gmap string value)) :=
  match items with
  | [] => Ok result
  | it :: rest =>
      it' ← station_view now it;
      stations_loop now rest (result ++ [it'])
  end.

(** What the handler hands to the framework: the body of the response,
    or the [HTTPException] its [except] clause raises. *)
Inductive response (A : Type) : Type :=
  | Body (a : A)
  | HTTPException (status_code : Z) (cause : exn).
Arguments Body {A} a.
Arguments HTTPException {A} status_code cause.

(** [items] is what [get_documents("station")] returned and [now] the
    second of the wall clock, [datetime.utcnow().second]; the body is
    the list under the key ["stations"]. *)
Definition list_stations (items : list (gmap string value)) (now : Z)
  : response (list (gmap string value)) :=
  match stations_loop now items [] with
  | Ok result => Body result
  | Raise e => HTTPException 500 e
  end.

(** A string is well formed for [luhn_check] when every character that
    passes [isdigit] is a decimal digit, so that [int] accepts it. *)
Definition decimal_only (s : str) : Prop :=
  Forall (fun c => isdigit c = true -> isdecimal c = true) s.

(** ** Inputs used below *)

(** SUPERSCRIPT ZERO (U+2070) followed by twelve ASCII zeros. *)
Definition superscript_zero_card : str := 0x2070%N :: lit "000000000000".

(** SUPERSCRIPT TWO (U+00B2) alone. *)
Definition superscript_two : str := [0xb2%N].

(** The test card number followed by CIRCLED DIGIT ONE (U+2460). *)
Definition circled_one_card : str := lit "4242424242424242" ++ [0x2460%N].

(** A confirmation request whose card number is SUBSCRIPT FOUR (U+2084)
    followed by the test card number. *)
Definition subscript_four_payload : PaymentConfirmIn :=
  {| client_secret := lit "pi_0123456789abcdef0123456789abcdef";
     card_number := 0x2084%N :: lit "4242424242424242";
     exp_month := 12;
     exp_year := 2030;
     cvc := lit "123" |}.

(** Two requests for the test card that differ in every other field. *)
Definition visa_payload : PaymentConfirmIn :=
  {| client_secret := lit "pi_a";
     card_number := lit "4242424242424242";
     exp_month := 12;
     exp_year := 2030;
     cvc := lit "123" |}.

Definition visa_payload_expired : PaymentConfirmIn :=
  {| client_secret := lit "pi_b";
     card_number := lit "4242424242424242";
     exp_month := 13;
     exp_year := 1999;
     cvc := lit "" |}.

(** The connector counts of the four seeded stations. *)
Definition seed_items : list (gmap string value) :=
  [ {[ "name" := VStr (lit "Lac 1 Supercharger"); "capacity" := VInt 6 ]};
    {[ "name" := VStr (lit "La Marsa Marina"); "capacity" := VInt 4 ]};
    {[ "name" := VStr (lit "Sfax City Center"); "capacity" := VInt 3 ]};
    {[ "name" := VStr (lit "Sousse Corniche"); "capacity" := VInt 5 ]} ].

(** * Properties *)

(** ** The runtime tables *)

Lemma isdecimal_isdigit c : isdecimal c = true -> isdigit c = true.
Proof. intros H. unfold isdigit. now rewrite H. Qed.

Lemma int_decimal c : int c = from_option Ok (Raise ValueError) (decimal_value c).
Proof. unfold int. now destruct (decimal_value c). Qed.

(** Among the ASCII characters, [isdigit] holds of 0-9 alone, and
    [int] gives each of them its value. *)
Lemma ascii_rows c : (c < 128)%N -> ascii_row_ok c = true.
Proof.
  intros Hc.
  assert (Hall : forallb ascii_row_ok (N.of_nat <$> seq 0 128) = true)
    by (vm_compute; reflexivity).
  rewrite forallb_forall in Hall. apply Hall.
  apply list_elem_of_In, list_elem_of_fmap. exists (N.to_nat c). split; [lia|].
  apply list_elem_of_In, in_seq. lia.
Qed.

Lemma isdigit_ascii c :
  (c < 128)%N -> isdigit c = ((48 <=? c) && (c <=? 57))%N.
Proof.
  intros Hc. pose proof (ascii_rows c Hc) as H. unfold ascii_row_ok in H.
  destruct ((48 <=? c) && (c <=? 57))%N.
  - now apply andb_true_iff in H.
  - now apply negb_true_iff in H.
Qed.

Lemma int_ascii_digit c :
  (48 <= c <= 57)%N -> int c = Ok (Z.of_N c - 48).
Proof.
  intros Hc. assert (Hlt : (c < 128)%N) by lia.
  pose proof (ascii_rows c Hlt) as H. unfold ascii_row_ok in H.
  replace ((48 <=? c) && (c <=? 57))%N with true in H
    by (symmetry; apply andb_true_iff; split; apply N.leb_le; lia).
  apply andb_true_iff in H as [_ H]. apply bool_decide_eq_true in H.
  unfold int. now rewrite H.
Qed.

(** ** The comprehension *)

Lemma digits_of_decimal_only s :
  decimal_only s -> digits_of s = Ok (decimal_digits s).
Proof.
  unfold decimal_only, decimal_digits.
  induction 1 as [|c s Hc _ IH]; [reflexivity|].
  cbn [digits_of omap list_omap]. rewrite IH. unfold int, isdecimal in *.
  destruct (isdigit c) eqn:Hd.
  - specialize (Hc eq_refl). destruct (decimal_value c); [reflexivity|discriminate].
  - destruct (decimal_value c) eqn:Hv; [|reflexivity].
    pose proof (isdecimal_isdigit c) as Hi. unfold isdecimal in Hi.
    rewrite Hv in Hi. specialize (Hi eq_refl). congruence.
Qed.

Lemma digits_of_raises s e :
  digits_of s = Raise e -> e = ValueError /\ ~ decimal_only s.
Proof.
  intros H. split.
  - induction s as [|c s IH]; [discriminate|]. cbn [digits_of] in H.
    destruct (isdigit c); [|auto]. unfold int in H.
    destruct (decimal_value c); cbn in H; [|congruence].
    destruct (digits_of s); cbn in H; [discriminate|]. apply IH. congruence.
  - intros Hd. apply digits_of_decimal_only in Hd. congruence.
Qed.

Lemma ascii_decimal_only s : Forall (fun c => (c < 128)%N) s -> decimal_only s.
Proof.
  unfold decimal_only. intros H. eapply Forall_impl; [exact H|]. intros c Hc Hd.
  rewrite isdigit_ascii in Hd by assumption.
  apply andb_true_iff in Hd as [Hlo Hhi].
  apply N.leb_le in Hlo. apply N.leb_le in Hhi.
  pose proof (int_ascii_digit c (conj Hlo Hhi)) as Hi.
  unfold int, isdecimal in *. destruct (decimal_value c); [reflexivity|discriminate].
Qed.

Lemma digits_of_filter s : digits_of (List.filter isdigit s) = digits_of s.
Proof.
  induction s as [|c s IH]; [reflexivity|].
  cbn [List.filter digits_of]. destruct (isdigit c) eqn:Hd; [|exact IH].
  cbn [digits_of]. now rewrite Hd, IH.
Qed.

(** ** The loop and the Luhn sum *)

Lemma parity_eqb (i n : nat) :
  (Z.of_nat i mod 2 =? Z.of_nat n mod 2) = bool_decide (Nat.even i = Nat.even n).
Proof.
  assert (Hp : forall k : nat, Z.of_nat k mod 2 = if Nat.even k then 0 else 1).
  { intros k. destruct (Nat.even k) eqn:Hk.
    - apply Nat.even_spec in Hk as [m ->]. rewrite Nat2Z.inj_mul.
      change (Z.of_nat 2) with 2. rewrite Z.mul_comm. apply Z.mod_mul. lia.
    - assert (Ho : Nat.odd k = true) by (rewrite <- Nat.negb_even, Hk; reflexivity).
      apply Nat.odd_spec in Ho as [m ->].
      rewrite Nat2Z.inj_add, Nat2Z.inj_mul. change (Z.of_nat 2) with 2.
      change (Z.of_nat 1) with 1. rewrite Z.add_comm, Z.mul_comm.
      rewrite Z.mod_add by lia. reflexivity. }
  rewrite !Hp. destruct (Nat.even i), (Nat.even n); reflexivity.
Qed.

Lemma luhn_digit_term (n i : nat) (d : Z) :
  luhn_digit (Z.of_nat n mod 2) (Z.of_nat i) d = luhn_term n i d.
Proof.
  unfold luhn_digit, luhn_term. rewrite parity_eqb.
  destruct (decide (Nat.even i = Nat.even n)) as [He|He].
  - rewrite bool_decide_eq_true_2 by assumption.
    destruct (d * 2 >? 9) eqn:Hd, (decide (2 * d > 9)); lia.
  - rewrite bool_decide_eq_false_2 by assumption. reflexivity.
Qed.

Lemma luhn_loop_terms (n : nat) (digits : list Z) :
  forall (k : nat) (acc : Z),
    luhn_loop (Z.of_nat n mod 2) (Z.of_nat k) digits acc
    = acc + foldr Z.add 0 (imap (fun j => luhn_term n (k + j)) digits).
Proof.
  induction digits as [|d rest IH]; intros k acc; cbn [luhn_loop imap foldr].
  - lia.
  - replace (Z.of_nat k + 1) with (Z.of_nat (S k)) by lia.
    rewrite IH, luhn_digit_term, Nat.add_0_r.
    rewrite (imap_ext (fun j => luhn_term n (S k + j))
                      ((fun j => luhn_term n (k + j)) ∘ S) rest).
    + lia.
    + intros j x _. cbn. f_equal. lia.
Qed.

Lemma luhn_loop_sum (digits : list Z) :
  luhn_loop (Z.of_nat (length digits) mod 2) 0 digits 0 = luhn_sum digits.
Proof.
  change 0 with (Z.of_nat 0) at 1. rewrite luhn_loop_terms. reflexivity.
Qed.

(** On a well-formed string [luhn_check] is the length test followed by
    the Luhn sum of the decimal digits. *)
Lemma luhn_check_decimal_only s :
  decimal_only s ->
  luhn_check s =
    Ok (if Z.of_nat (length (decimal_digits s)) <? 12 then false
        else luhn_sum (decimal_digits s) mod 10 =? 0).
Proof.
  intros Hs. unfold luhn_check. rewrite (digits_of_decimal_only s Hs).
  cbn [mbind result_bind]. rewrite luhn_loop_sum.
  now destruct (Z.of_nat (length (decimal_digits s)) <? 12).
Qed.

Lemma luhn_check_decimal_spec s :
  decimal_only s ->
  (12 <= length (decimal_digits s))%nat ->
  luhn_check s = Ok true <-> luhn_sum (decimal_digits s) mod 10 = 0.
Proof.
  intros Hs Hlen. rewrite (luhn_check_decimal_only s Hs).
  replace (Z.of_nat (length (decimal_digits s)) <? 12) with false
    by (symmetry; apply Z.ltb_ge; lia).
  split.
  - intros H. apply Z.eqb_eq. congruence.
  - intros H. f_equal. now apply Z.eqb_eq.
Qed.

Lemma luhn_check_decimal_short s :
  decimal_only s ->
  (length (decimal_digits s) < 12)%nat ->
  luhn_check s = Ok false.
Proof.
  intros Hs Hlen. rewrite (luhn_check_decimal_only s Hs).
  now replace (Z.of_nat (length (decimal_digits s)) <? 12) with true
    by (symmetry; apply Z.ltb_lt; lia).
Qed.

Lemma luhn_check_decimal_total s :
  decimal_only s -> exists b, luhn_check s = Ok b.
Proof. intros Hs. rewrite (luhn_check_decimal_only s Hs). eauto. Qed.

Lemma luhn_check_raises s e :
  luhn_check s = Raise e -> e = ValueError /\ ~ decimal_only s.
Proof.
  intros H. unfold luhn_check in H. destruct (digits_of s) eqn:Hd.
  - cbn in H. destruct (_ <? _); discriminate.
  - cbn in H. injection H as ->. now apply digits_of_raises.
Qed.

(** ** The relation and the function agree *)

Lemma comprehension_complete s : comprehension s (digits_of s).
Proof.
  induction s as [|d rest IH]; cbn [digits_of]; [constructor|].
  destruct (isdigit d) eqn:Hd; [|now apply comp_skip].
  destruct (int d) as [v|e] eqn:Hi.
  - replace (v0 ← Ok v; vs ← digits_of rest; Ok (v0 :: vs))
      with ((fun vs => v :: vs) <$> digits_of rest)
      by (now destruct (digits_of rest)).
    now apply comp_keep.
  - now apply comp_invalid.
Qed.

Lemma comprehension_sound s r : comprehension s r -> r = digits_of s.
Proof.
  induction 1 as [|d rest r Hd _ IH|d rest e Hd Hi|d rest v r Hd Hi _ IH];
    cbn [digits_of]; rewrite ?Hd, ?Hi; try reflexivity; try assumption.
  rewrite IH. now destruct (digits_of rest).
Qed.

Lemma loop_step_sound parity st st' :
  loop_step parity st st' ->
  luhn_loop parity (idx st') (pending st') (checksum st')
  = luhn_loop parity (idx st) (pending st) (checksum st).
Proof.
  destruct 1 as [i d rest c Hp Hd|i d rest c Hp Hd|i d rest c Hp];
    cbn [idx pending checksum luhn_loop]; f_equal; f_equal; unfold luhn_digit.
  - rewrite (proj2 (Z.eqb_eq _ _) Hp).
    now replace (d * 2 >? 9) with true by (symmetry; apply Z.gtb_gt; lia).
  - rewrite (proj2 (Z.eqb_eq _ _) Hp).
    destruct (d * 2 >? 9) eqn:Hg; [|reflexivity]. apply Z.gtb_gt in Hg. lia.
  - now rewrite (proj2 (Z.eqb_neq _ _) Hp).
Qed.

Lemma loop_run_sound parity st final :
  rtc (loop_step parity) st final ->
  pending final = [] ->
  checksum final = luhn_loop parity (idx st) (pending st) (checksum st).
Proof.
  induction 1 as [st|st mid final Hstep _ IH]; intros Hend.
  - now rewrite Hend.
  - rewrite (IH Hend). now apply loop_step_sound.
Qed.

Lemma loop_step_total parity i d rest c :
  loop_step parity (LoopState i (d :: rest) c)
            (LoopState (i + 1) rest (c + luhn_digit parity i d)).
Proof.
  unfold luhn_digit. destruct (i mod 2 =? parity) eqn:Hp.
  - apply Z.eqb_eq in Hp. destruct (d * 2 >? 9) eqn:Hg.
    + apply step_doubled_folded; [assumption|]. apply Z.gtb_gt in Hg. lia.
    + apply step_doubled; [assumption|].
      destruct (Z.gtb_spec (d * 2) 9); [discriminate|lia].
  - apply Z.eqb_neq in Hp. now apply step_plain.
Qed.

Lemma loop_run_complete parity digits :
  forall i c, exists final,
    rtc (loop_step parity) (LoopState i digits c) final
    /\ pending final = []
    /\ checksum final = luhn_loop parity i digits c.
Proof.
  induction digits as [|d rest IH]; intros i c.
  - exists (LoopState i [] c). repeat split. apply rtc_refl.
  - destruct (IH (i + 1) (c + luhn_digit parity i d)) as (final & Hrun & Hend & Hsum).
    exists final. repeat split; [|assumption|assumption].
    eapply rtc_l; [apply loop_step_total|exact Hrun].
Qed.

Lemma luhn_check_runs_sound s r : luhn_check_runs s r -> luhn_check s = r.
Proof.
  destruct 1 as [s e Hc|s digits Hc Hlen|s digits final Hc Hlen Hrun Hend];
    apply comprehension_sound in Hc; unfold luhn_check; rewrite <- Hc;
    cbn [mbind result_bind].
  - reflexivity.
  - now rewrite (proj2 (Z.ltb_lt _ _) Hlen).
  - rewrite (proj2 (Z.ltb_ge _ _) Hlen). cbn zeta.
    rewrite (loop_run_sound _ _ _ Hrun Hend). cbn [idx pending checksum].
    f_equal. apply eq_true_iff_eq. rewrite Z.eqb_eq, bool_decide_eq_true. reflexivity.
Qed.

Lemma luhn_check_runs_complete s : luhn_check_runs s (luhn_check s).
Proof.
  unfold luhn_check. pose proof (comprehension_complete s) as Hc.
  destruct (digits_of s) as [digits|e]; cbn [mbind result_bind].
  - destruct (Z.ltb_spec (Z.of_nat (length digits)) 12) as [Hlen|Hlen].
    + now apply run_too_short with digits.
    + cbn zeta.
      destruct (loop_run_complete (Z.of_nat (length digits) mod 2) digits 0 0)
        as (final & Hrun & Hend & Hsum).
      rewrite <- Hsum.
      replace (checksum final mod 10 =? 0)
        with (bool_decide (checksum final mod 10 = 0))
        by (apply eq_true_iff_eq; rewrite Z.eqb_eq, bool_decide_eq_true; reflexivity).
      now apply run_checksum with digits.
  - now apply run_raises.
Qed.

(** ** [confirm_payment] *)

Lemma confirm_payment_gate payload uuid4_hex :
  confirm_payment payload uuid4_hex =
    match luhn_check (card_number payload) with
    | Ok true =>
        Ok {| status := lit "succeeded";
              transaction_id := Some (lit "txn_" ++ take 12 uuid4_hex);
              message := Some (lit "Payment confirmed") |}
    | Ok false =>
        Ok {| status := lit "failed";
              transaction_id := None;
              message := Some (lit "Invalid card number") |}
    | Raise e => Raise e
    end.
Proof.
  unfold confirm_payment.
  now destruct (luhn_check (card_number payload)) as [[]|].
Qed.

(** On a well-formed card number the handler returns a result, and the
    Luhn check alone chooses between the two. *)
Lemma confirm_payment_decimal_only payload uuid4_hex :
  decimal_only (card_number payload) ->
  exists r, confirm_payment payload uuid4_hex = Ok r
    /\ (luhn_check (card_number payload) = Ok true ->
        status r = lit "succeeded"
        /\ (exists t, transaction_id r = Some t /\ t <> []))
    /\ (luhn_check (card_number payload) = Ok false ->
        status r = lit "failed"
        /\ message r = Some (lit "Invalid card number")
        /\ transaction_id r = None).
Proof.
  intros Hs. rewrite confirm_payment_gate.
  destruct (luhn_check_decimal_total _ Hs) as [b ->].
  destruct b; eexists; (split; [reflexivity|]); split; intros H;
    try discriminate; cbn; repeat split.
  eexists; split; [reflexivity|discriminate].
Qed.

(** ** [list_stations] *)

Lemma station_view_available now it c :
  capacity_of it = VInt c -> 1 <= c ->
  exists it',
    station_view now it = Ok it'
    /\ it' !! "available" = Some (VInt (c - now mod (c + 1)))
    /\ 0 <= now mod (c + 1) <= c.
Proof.
  intros Hcap Hc. unfold station_view. rewrite Hcap. cbn [as_int mbind result_bind].
  unfold mod_. rewrite (proj2 (Z.eqb_neq (c + 1) 0)) by lia.
  pose proof (Z.mod_pos_bound now (c + 1) ltac:(lia)) as Hocc.
  eexists. split; [reflexivity|]. split; [|lia].
  rewrite lookup_insert_ne by discriminate. rewrite lookup_insert_eq.
  do 2 f_equal. lia.
Qed.

Lemma stations_loop_available now items :
  Forall (fun it => exists c, capacity_of it = VInt c /\ 1 <= c) items ->
  forall acc, exists out,
    stations_loop now items acc = Ok (acc ++ out)
    /\ Forall2 (fun it it' => exists c a,
                  capacity_of it = VInt c
                  /\ it' !! "available" = Some (VInt a)
                  /\ a = c - now mod (c + 1)
                  /\ 0 <= a <= c) items out.
Proof.
  induction 1 as [|it items (c & Hcap & Hc) _ IH]; intros acc.
  - exists []. split; [now rewrite app_nil_r|constructor].
  - destruct (station_view_available now it c Hcap Hc) as (it' & Hview & Hav & Hocc).
    destruct (IH (acc ++ [it'])) as (out & Hloop & Hall).
    exists (it' :: out). cbn [stations_loop]. rewrite Hview. cbn [mbind result_bind].
    rewrite Hloop, <- app_assoc. split; [reflexivity|].
    constructor; [|assumption]. exists c, (c - now mod (c + 1)).
    repeat split; try assumption; lia.
Qed.

(** * The claims *)

(** C1: a string of thirteen digit characters whose Luhn sum is 0, and
    whose decimal digits alone also sum to 0, does not make [luhn_check]
    return true: the comprehension raises [ValueError] at the superscript
    zero before any sum is taken. On strings whose digit characters are
    all decimal the claimed equivalence is [luhn_check_decimal_spec]. *)
Theorem luhn_check_superscript_zero_card :
  length (List.filter isdigit superscript_zero_card) = 13%nat
  /\ decimal_digits superscript_zero_card = replicate 12 0
  /\ luhn_sum (replicate 13 0) mod 10 = 0
  /\ luhn_sum (replicate 12 0) mod 10 = 0
  /\ luhn_check superscript_zero_card = Raise ValueError.
Proof. repeat split; vm_compute; reflexivity. Qed.

(** C2: a string with a single digit character and nothing else does
    not make [luhn_check] return false: the call raises [ValueError]
    before the length is tested. On strings whose digit characters are
    all decimal the claim is [luhn_check_decimal_short]. *)
Theorem luhn_check_superscript_two :
  length (List.filter isdigit superscript_two) = 1%nat
  /\ decimal_digits superscript_two = []
  /\ luhn_check superscript_two = Raise ValueError.
Proof. repeat split; vm_compute; reflexivity. Qed.

(** C3: [luhn_check] has the same outcome on a string and on the string
    with every character that fails [isdigit] removed; the dashed and
    the plain form of the test card number are both accepted. *)
Theorem luhn_check_filter_isdigit :
  (forall s, luhn_check s = luhn_check (List.filter isdigit s))
  /\ luhn_check (lit "4242-4242-4242-4242") = luhn_check (lit "4242424242424242").
Proof.
  split; [|vm_compute; reflexivity].
  intros s. unfold luhn_check. now rewrite digits_of_filter.
Qed.

(** C4: [luhn_check] does not return a boolean on every string: a
    circled digit passes [isdigit], [int] rejects it, and the call ends
    with [ValueError]. Every call does end ([luhn_check_runs_complete]),
    and on strings whose digit characters are all decimal it ends with a
    boolean ([luhn_check_decimal_total]). *)
Theorem luhn_check_circled_one_card :
  isdigit 0x2460%N = true
  /\ int 0x2460%N = Raise ValueError
  /\ luhn_check circled_one_card = Raise ValueError
  /\ luhn_check_runs circled_one_card (Raise ValueError).
Proof.
  repeat split; try (vm_compute; reflexivity).
  exact (luhn_check_runs_complete circled_one_card).
Qed.

(** C5: for a card number holding a subscript digit [confirm_payment]
    returns neither a succeeded nor a failed result: the [ValueError] of
    [luhn_check] leaves the handler. On card numbers whose digit
    characters are all decimal the claim is
    [confirm_payment_decimal_only]. *)
Theorem confirm_payment_subscript_four :
  forall uuid4_hex,
    confirm_payment subscript_four_payload uuid4_hex = Raise ValueError.
Proof. intros uuid4_hex. vm_compute. reflexivity. Qed.

(** C6: two confirmation requests with the same card number have the
    same outcome up to the transaction id: the same status and the same
    message, or the same exception, whatever the other fields and the
    drawn identifiers are. *)
Theorem confirm_payment_card_number_only p1 p2 u1 u2 :
  card_number p1 = card_number p2 ->
  (fun r => (status r, message r)) <$> confirm_payment p1 u1
  = (fun r => (status r, message r)) <$> confirm_payment p2 u2.
Proof.
  intros Hcard. rewrite !confirm_payment_gate, Hcard.
  now destruct (luhn_check (card_number p2)) as [[]|].
Qed.

Lemma confirm_payment_card_number_only_witness :
  card_number visa_payload = card_number visa_payload_expired
  /\ (fun r => (status r, message r))
       <$> confirm_payment visa_payload (lit "0123456789abcdef0123456789abcdef")
     = (fun r => (status r, message r))
       <$> confirm_payment visa_payload_expired (lit "fedcba9876543210fedcba9876543210").
Proof.
  split; [reflexivity|].
  apply (confirm_payment_card_number_only visa_payload visa_payload_expired).
  reflexivity.
Defined.

(** C7: the test card number is accepted and the same number with its
    last digit changed from 2 to 1 is rejected. *)
Theorem luhn_check_test_card :
  luhn_check (lit "4242424242424242") = Ok true
  /\ luhn_check (lit "4242424242424241") = Ok false.
Proof. split; vm_compute; reflexivity. Qed.

(** C8: twelve zeros pass the length test at its minimum, their
    checksum is 0, and [luhn_check] returns true. *)
Theorem luhn_check_twelve_zeros :
  digits_of (lit "000000000000") = Ok (replicate 12 0)
  /\ luhn_loop (12 mod 2) 0 (replicate 12 0) 0 = 0
  /\ luhn_check (lit "000000000000") = Ok true.
Proof. repeat split; vm_compute; reflexivity. Qed.

(** C9: a call of [luhn_check] on a given string has one outcome: any
    two runs on the same string end alike. *)
Theorem luhn_check_deterministic s r1 r2 :
  luhn_check_runs s r1 -> luhn_check_runs s r2 -> r1 = r2.
Proof.
  intros H1 H2. apply luhn_check_runs_sound in H1, H2. congruence.
Qed.

Lemma luhn_check_deterministic_witness :
  luhn_check_runs (lit "4242424242424242") (Ok true)
  /\ luhn_check (lit "4242424242424242") = Ok true.
Proof.
  pose (H := luhn_check_runs_complete (lit "4242424242424242")).
  split; [exact H|].
  exact (luhn_check_deterministic (lit "4242424242424242") _ _ H H).
Defined.

(** C10: when every stored station has an integer capacity of at least
    one and the clock second is within 0..59, [list_stations] answers
    with one entry per station whose [available] is
    [capacity - now mod (capacity + 1)], a value within 0..capacity that
    [max] leaves as it is. *)
Theorem list_stations_available items now :
  0 <= now <= 59 ->
  Forall (fun it => exists c, capacity_of it = VInt c /\ 1 <= c) items ->
  exists result,
    list_stations items now = Body result
    /\ Forall2 (fun it it' => exists c a,
                  capacity_of it = VInt c
                  /\ it' !! "available" = Some (VInt a)
                  /\ a = c - now mod (c + 1)
                  /\ 0 <= a <= c) items result.
Proof.
  intros _ Hitems.
  destruct (stations_loop_available now items Hitems []) as (out & Hloop & Hall).
  exists out. unfold list_stations. now rewrite Hloop.
Qed.

Lemma list_stations_available_witness :
  exists result,
    list_stations seed_items 37 = Body result
    /\ Forall2 (fun it it' => exists c a,
                  capacity_of it = VInt c
                  /\ it' !! "available" = Some (VInt a)
                  /\ a = c - 37 mod (c + 1)
                  /\ 0 <= a <= c) seed_items result.
Proof.
  apply (list_stations_available seed_items 37); [lia|].
  unfold seed_items. repeat constructor.
  - exists 6. split; [reflexivity|lia].
  - exists 4. split; [reflexivity|lia].
  - exists 3. split; [reflexivity|lia].
  - exists 5. split; [reflexivity|lia].
Defined.

(** * Further properties of [luhn_check] *)

Lemma decimal_value_range c v : decimal_value c = Some v -> 0 <= v <= 9.
Proof.
  unfold decimal_value. generalize decimal_zeros.
  induction l as [|z zeros IH]; cbn [decimal_in]; [discriminate|].
  destruct ((z <=? c) && (c <? z + 10))%N eqn:Hin; [|exact IH].
  apply andb_true_iff in Hin as [Hlo Hhi].
  apply N.leb_le in Hlo. apply N.ltb_lt in Hhi. intros [= <-]. lia.
Qed.

Lemma digits_of_ok_decimal_only s ds : digits_of s = Ok ds -> decimal_only s.
Proof.
  unfold decimal_only. revert ds.
  induction s as [|c s IH]; intros ds H; [constructor|].
  cbn [digits_of] in H. destruct (isdigit c) eqn:Hd.
  - unfold int in H.
    destruct (decimal_value c) eqn:Hv; cbn in H; [|discriminate].
    destruct (digits_of s) as [vs|] eqn:Hs; cbn in H; [|discriminate].
    constructor; [|now apply (IH vs)].
    intros _. unfold isdecimal. now rewrite Hv.
  - constructor; [congruence|]. now apply (IH ds).
Qed.

Lemma decimal_digits_app s t :
  decimal_digits (s ++ t) = decimal_digits s ++ decimal_digits t.
Proof. unfold decimal_digits. apply omap_app. Qed.

Lemma decimal_digits_range s : Forall (fun v => 0 <= v <= 9) (decimal_digits s).
Proof.
  unfold decimal_digits. induction s as [|c s IH]; cbn [omap list_omap]; [constructor|].
  destruct (decimal_value c) eqn:Hv; [|exact IH].
  constructor; [now apply (decimal_value_range c)|exact IH].
Qed.

(** The ASCII digit of a value in 0..9 and back. *)
Lemma decimal_value_ascii v :
  0 <= v <= 9 -> decimal_value (Z.to_N (48 + v)) = Some v.
Proof.
  intros Hv. pose proof (int_ascii_digit (Z.to_N (48 + v)) ltac:(lia)) as H.
  unfold int in H. destruct (decimal_value (Z.to_N (48 + v))); [|discriminate].
  injection H as ->. f_equal. lia.
Qed.

Lemma decimal_digits_ascii vs :
  Forall (fun v => 0 <= v <= 9) vs ->
  decimal_digits ((fun v => Z.to_N (48 + v)) <$> vs) = vs.
Proof.
  unfold decimal_digits. induction 1 as [|v vs Hv _ IH]; [reflexivity|].
  cbn [fmap list_fmap omap list_omap]. rewrite (decimal_value_ascii v Hv).
  f_equal. exact IH.
Qed.

Lemma decimal_digits_only_decimal s :
  Forall (fun c => isdecimal c = true) s -> decimal_only s.
Proof. unfold decimal_only. intros H. eapply Forall_impl; [exact H|]. auto. Qed.

Lemma ascii_digits_decimal_only vs :
  Forall (fun v => 0 <= v <= 9) vs ->
  decimal_only ((fun v => Z.to_N (48 + v)) <$> vs).
Proof.
  intros H. apply decimal_digits_only_decimal, Forall_fmap.
  eapply Forall_impl; [exact H|]. intros v Hv. cbn. unfold isdecimal.
  now rewrite (decimal_value_ascii v Hv).
Qed.

(** Acceptance of a well-formed string, in terms of the Luhn sum. *)
Lemma luhn_check_accepts_spec s :
  decimal_only s ->
  (exists b, luhn_check s = Ok b)
  /\ (luhn_check s = Ok true <->
      (12 <= length (decimal_digits s))%nat
      /\ luhn_sum (decimal_digits s) mod 10 = 0).
Proof.
  intros Hs. rewrite (luhn_check_decimal_only s Hs). split; [eauto|].
  destruct (Z.ltb_spec (Z.of_nat (length (decimal_digits s))) 12) as [Hlen|Hlen].
  - split; [discriminate|]. intros [H _]. lia.
  - split.
    + intros [= H]. apply Z.eqb_eq in H. split; [lia|exact H].
    + intros [_ H]. f_equal. now apply Z.eqb_eq.
Qed.

(** X1. On a string whose digit characters are all decimal,
    [luhn_check] returns a boolean: true exactly when at least twelve
    digits remain and their Luhn sum is a multiple of ten, and false
    in particular whenever fewer than twelve digits remain. *)
Theorem luhn_check_accepts_iff s :
  decimal_only s ->
  (exists b, luhn_check s = Ok b)
  /\ (luhn_check s = Ok true <->
      (12 <= length (decimal_digits s))%nat
      /\ luhn_sum (decimal_digits s) mod 10 = 0)
  /\ ((length (decimal_digits s) < 12)%nat -> luhn_check s = Ok false).
Proof.
  intros Hs. destruct (luhn_check_accepts_spec s Hs) as [Hb Hiff].
  split; [exact Hb|]. split; [exact Hiff|].
  now apply luhn_check_decimal_short.
Qed.

Lemma luhn_check_accepts_iff_witness :
  decimal_only (lit "4242 4242 4242 4242")
  /\ (luhn_check (lit "4242 4242 4242 4242") = Ok true <->
      (12 <= length (decimal_digits (lit "4242 4242 4242 4242")))%nat
      /\ luhn_sum (decimal_digits (lit "4242 4242 4242 4242")) mod 10 = 0).
Proof.
  assert (H : decimal_only (lit "4242 4242 4242 4242")).
  { apply ascii_decimal_only. vm_compute. repeat constructor. }
  split; [exact H|].
  exact (proj1 (proj2 (luhn_check_accepts_iff (lit "4242 4242 4242 4242") H))).
Defined.

(** X2. [luhn_check] returns a boolean exactly on the strings whose
    digit characters are all decimal; on every other string it raises,
    and the exception is always [ValueError]. *)
Theorem luhn_check_returns_iff s :
  ((exists b, luhn_check s = Ok b) <-> decimal_only s)
  /\ (luhn_check s = Raise ValueError <-> ~ decimal_only s)
  /\ (forall e, luhn_check s = Raise e -> e = ValueError).
Proof.
  assert (Hok : forall b, luhn_check s = Ok b -> decimal_only s).
  { intros b H. unfold luhn_check in H.
    destruct (digits_of s) as [ds|] eqn:Hd; [|discriminate].
    now apply (digits_of_ok_decimal_only s ds). }
  split; [|split].
  - split; [intros [b H]; now apply (Hok b)|apply luhn_check_decimal_total].
  - split.
    + intros H Hs. destruct (luhn_check_decimal_total s Hs) as [b Hb]. congruence.
    + intros Hn. destruct (luhn_check s) as [b|e] eqn:H.
      * destruct Hn. now apply (Hok b).
      * f_equal. now apply (luhn_check_raises s e).
  - intros e H. now apply (luhn_check_raises s e).
Qed.

(** X3. On a string of ASCII characters [luhn_check] always returns a
    boolean, and the digits it sums are the characters 0-9 of the
    string, in order, each with its usual value. *)
Theorem luhn_check_ascii s :
  Forall (fun c => (c < 128)%N) s ->
  (exists b, luhn_check s = Ok b)
  /\ digits_of s
     = Ok ((fun c => Z.of_N c - 48)
             <$> List.filter (fun c => (48 <=? c) && (c <=? 57))%N s).
Proof.
  intros Hs. split; [now apply luhn_check_decimal_total, ascii_decimal_only|].
  induction Hs as [|c s Hc _ IH]; [reflexivity|].
  cbn [digits_of List.filter]. rewrite (isdigit_ascii c Hc), IH.
  destruct ((48 <=? c) && (c <=? 57))%N eqn:Hd; [|reflexivity].
  apply andb_true_iff in Hd as [Hlo Hhi].
  apply N.leb_le in Hlo. apply N.leb_le in Hhi.
  now rewrite (int_ascii_digit c (conj Hlo Hhi)).
Qed.

Lemma luhn_check_ascii_witness :
  (exists b, luhn_check (lit "4242-4242 4242/4242") = Ok b)
  /\ digits_of (lit "4242-4242 4242/4242")
     = Ok ((fun c => Z.of_N c - 48)
             <$> List.filter (fun c => (48 <=? c) && (c <=? 57))%N
                   (lit "4242-4242 4242/4242")).
Proof.
  apply (luhn_check_ascii (lit "4242-4242 4242/4242")).
  vm_compute. repeat constructor.
Defined.

(** X4. A card number written with any decimal digits of Unicode
    (Arabic-Indic, fullwidth, ...) and any separators has the same
    outcome as its digits written in ASCII. *)
Theorem luhn_check_ascii_form s :
  decimal_only s ->
  luhn_check s = luhn_check ((fun v => Z.to_N (48 + v)) <$> decimal_digits s).
Proof.
  intros Hs. pose proof (decimal_digits_range s) as Hr.
  rewrite (luhn_check_decimal_only s Hs).
  rewrite (luhn_check_decimal_only _ (ascii_digits_decimal_only _ Hr)).
  now rewrite (decimal_digits_ascii _ Hr).
Qed.

Lemma luhn_check_ascii_form_witness :
  decimal_only (replicate 12 0x660%N)
  /\ luhn_check (replicate 12 0x660%N) = luhn_check (lit "000000000000").
Proof.
  assert (H : decimal_only (replicate 12 0x660%N)).
  { apply decimal_digits_only_decimal, Forall_replicate. reflexivity. }
  split; [exact H|]. exact (luhn_check_ascii_form (replicate 12 0x660%N) H).
Defined.

(** ** The Luhn sum read from the right

    Whether a digit is doubled depends only on how many digits follow
    it: the last digit is never doubled, the one before it always is. *)

Lemma luhn_term_succ n i d : luhn_term (S n) (S i) d = luhn_term n i d.
Proof.
  unfold luhn_term. rewrite !Nat.even_succ, <- !Nat.negb_even.
  destruct (Nat.even i), (Nat.even n); reflexivity.
Qed.

Lemma luhn_sum_cons d rest :
  luhn_sum (d :: rest) = luhn_term (S (length rest)) 0 d + luhn_sum rest.
Proof.
  unfold luhn_sum. cbn [length imap foldr]. f_equal. f_equal.
  apply imap_ext. intros i x _. cbn. apply luhn_term_succ.
Qed.

Lemma luhn_term_zero n i : luhn_term n i 0 = 0.
Proof. unfold luhn_term. destruct (decide _); reflexivity. Qed.

Lemma luhn_sum_app_cons l1 d l2 :
  luhn_sum (l1 ++ d :: l2)
  = luhn_sum (l1 ++ 0 :: l2) + luhn_term (S (length l2)) 0 d.
Proof.
  induction l1 as [|x l1 IH]; cbn [app].
  - rewrite !luhn_sum_cons, luhn_term_zero. lia.
  - rewrite !luhn_sum_cons, IH, !length_app. cbn [length]. lia.
Qed.

(** The term of a digit, by the parity of the number of digits after
    it. *)
Lemma luhn_term_after m d :
  luhn_term (S m) 0 d
  = if Nat.even m then d else if decide (2 * d > 9) then 2 * d - 9 else 2 * d.
Proof.
  unfold luhn_term. rewrite Nat.even_succ, <- Nat.negb_even. cbn [Nat.even].
  destruct (Nat.even m); reflexivity.
Qed.

Lemma mod10_small x : -9 <= x <= 9 -> x mod 10 = 0 -> x = 0.
Proof.
  intros Hx H. pose proof (Z.div_mod x 10 ltac:(lia)) as Hq.
  rewrite H in Hq. lia.
Qed.

Lemma mod10_diff a b : a mod 10 = 0 -> b mod 10 = 0 -> (a - b) mod 10 = 0.
Proof. intros Ha Hb. now rewrite Zminus_mod, Ha, Hb. Qed.

Lemma luhn_term_injective m v w :
  0 <= v <= 9 -> 0 <= w <= 9 ->
  (luhn_term (S m) 0 v - luhn_term (S m) 0 w) mod 10 = 0 -> v = w.
Proof.
  intros Hv Hw. rewrite !luhn_term_after.
  destruct (Nat.even m);
    [|destruct (decide (2 * v > 9)), (decide (2 * w > 9))];
    intros H; apply mod10_small in H; lia.
Qed.

(** Outcome of [luhn_check] on a well-formed string with at least
    twelve digits, as a statement on the sum. *)
Lemma luhn_check_long s :
  decimal_only s -> (12 <= length (decimal_digits s))%nat ->
  forall b, luhn_check s = Ok b <->
            (b = true <-> luhn_sum (decimal_digits s) mod 10 = 0).
Proof.
  intros Hs Hlen b. rewrite (luhn_check_decimal_only s Hs).
  replace (Z.of_nat (length (decimal_digits s)) <? 12) with false
    by (symmetry; apply Z.ltb_ge; lia).
  destruct (Z.eqb_spec (luhn_sum (decimal_digits s) mod 10) 0) as [H|H];
    destruct b; intuition congruence.
Qed.

Lemma decimal_only_replace (s1 : list N) (c c' : N) (s2 : list N) :
  decimal_only (s1 ++ c :: s2) -> isdecimal c' = true ->
  decimal_only (s1 ++ c' :: s2).
Proof.
  unfold decimal_only. rewrite !Forall_app, !Forall_cons.
  intros (H1 & _ & H2) Hc. auto.
Qed.

Lemma decimal_digits_at (s1 : list N) (c : N) v (s2 : list N) :
  decimal_value c = Some v ->
  decimal_digits (s1 ++ c :: s2) = decimal_digits s1 ++ v :: decimal_digits s2.
Proof.
  intros Hv. rewrite decimal_digits_app. f_equal.
  unfold decimal_digits. cbn [omap list_omap]. now rewrite Hv.
Qed.

Lemma luhn_check_accepts_iff_len (s1 : list N) (c : N) (s2 : list N) :
  luhn_check (s1 ++ c :: s2) = Ok true ->
  (12 <= length (decimal_digits (s1 ++ c :: s2)))%nat.
Proof.
  intros Hok. unfold luhn_check in Hok.
  destruct (digits_of (s1 ++ c :: s2)) as [ds|] eqn:Hd; [|discriminate].
  pose proof (digits_of_ok_decimal_only _ ds Hd) as Hs.
  rewrite (digits_of_decimal_only _ Hs) in Hd. injection Hd as <-.
  cbn [mbind result_bind] in Hok.
  destruct (Z.ltb_spec (Z.of_nat (length (decimal_digits (s1 ++ c :: s2)))) 12);
    [discriminate|lia].
Qed.

(** X5. Changing one digit of an accepted card number to a different
    digit always gives a rejected number, wherever the digit is and
    whatever separators surround it. *)
Theorem luhn_check_single_digit_error (s1 : list N) (c c' : N) (s2 : list N) v v' :
  luhn_check (s1 ++ c :: s2) = Ok true ->
  decimal_value c = Some v ->
  decimal_value c' = Some v' ->
  v <> v' ->
  luhn_check (s1 ++ c' :: s2) = Ok false.
Proof.
  intros Hok Hv Hv' Hne.
  assert (Hs : decimal_only (s1 ++ c :: s2)).
  { unfold luhn_check in Hok.
    destruct (digits_of (s1 ++ c :: s2)) as [ds|] eqn:Hd; [|discriminate].
    now apply (digits_of_ok_decimal_only _ ds). }
  assert (Hs' : decimal_only (s1 ++ c' :: s2)).
  { apply (decimal_only_replace s1 c); [exact Hs|]. unfold isdecimal. now rewrite Hv'. }
  assert (Hlen : (12 <= length (decimal_digits (s1 ++ c :: s2)))%nat).
  { apply (luhn_check_accepts_iff_len s1 c s2). exact Hok. }
  revert Hlen. intros Hlen.
  assert (Hlen' : (12 <= length (decimal_digits (s1 ++ c' :: s2)))%nat).
  { rewrite (decimal_digits_at s1 c' v' s2 Hv').
    rewrite (decimal_digits_at s1 c v s2 Hv) in Hlen.
    rewrite length_app in *. exact Hlen. }
  apply (luhn_check_long _ Hs' Hlen'). split; [discriminate|]. intros Hsum'.
  apply (luhn_check_long _ Hs Hlen) in Hok. destruct Hok as [Hsum _].
  specialize (Hsum eq_refl). exfalso. apply Hne.
  rewrite (decimal_digits_at s1 c v s2 Hv), luhn_sum_app_cons in Hsum.
  rewrite (decimal_digits_at s1 c' v' s2 Hv'), luhn_sum_app_cons in Hsum'.
  apply (luhn_term_injective (length (decimal_digits s2)));
    [now apply (decimal_value_range c)|now apply (decimal_value_range c')|].
  pose proof (mod10_diff _ _ Hsum Hsum') as H.
  rewrite <- H. f_equal. lia.
Qed.

Lemma luhn_check_single_digit_error_witness :
  luhn_check (lit "424242424242424" ++ 50%N :: []) = Ok true
  /\ luhn_check (lit "424242424242424" ++ 49%N :: []) = Ok false.
Proof.
  split; [reflexivity|].
  apply (luhn_check_single_digit_error (lit "424242424242424") 50%N 49%N [] 2 1);
    [reflexivity|reflexivity|reflexivity|lia].
Defined.

Lemma luhn_sum_app_cons2 l1 x y l2 :
  luhn_sum (l1 ++ x :: y :: l2)
  = luhn_sum (l1 ++ 0 :: 0 :: l2)
    + luhn_term (S (S (length l2))) 0 x + luhn_term (S (length l2)) 0 y.
Proof.
  rewrite luhn_sum_app_cons. cbn [length].
  rewrite (cons_middle 0 l1 (y :: l2)), app_assoc, luhn_sum_app_cons.
  rewrite <- app_assoc, <- cons_middle. lia.
Qed.

Lemma decimal_digits_at2 (s1 : list N) (a b : N) va vb (s2 : list N) :
  decimal_value a = Some va -> decimal_value b = Some vb ->
  decimal_digits (s1 ++ a :: b :: s2)
  = decimal_digits s1 ++ va :: vb :: decimal_digits s2.
Proof.
  intros Ha Hb. rewrite decimal_digits_app. f_equal.
  unfold decimal_digits. cbn [omap list_omap]. now rewrite Ha, Hb.
Qed.

Lemma decimal_only_swap (s1 : list N) (a b : N) (s2 : list N) :
  decimal_only (s1 ++ a :: b :: s2) -> decimal_only (s1 ++ b :: a :: s2).
Proof.
  unfold decimal_only. rewrite !Forall_app, !Forall_cons. tauto.
Qed.

Lemma luhn_check_ok_decimal_only s b : luhn_check s = Ok b -> decimal_only s.
Proof.
  intros H. unfold luhn_check in H.
  destruct (digits_of s) as [ds|] eqn:Hd; [|discriminate].
  now apply (digits_of_ok_decimal_only s ds).
Qed.

(** The two terms of an adjacent pair of digits differ from those of
    the swapped pair by a multiple of ten only when the digits are
    equal or are 0 and 9. *)
Lemma luhn_pair_swap m va vb :
  0 <= va <= 9 -> 0 <= vb <= 9 ->
  ((luhn_term (S (S m)) 0 va + luhn_term (S m) 0 vb)
   - (luhn_term (S (S m)) 0 vb + luhn_term (S m) 0 va)) mod 10 = 0 ->
  va = vb \/ (va = 0 /\ vb = 9) \/ (va = 9 /\ vb = 0).
Proof.
  intros Ha Hb. rewrite !luhn_term_after, Nat.even_succ, <- Nat.negb_even.
  destruct (Nat.even m); cbn [negb];
    destruct (decide (2 * va > 9)), (decide (2 * vb > 9));
    intros H; apply mod10_small in H; lia.
Qed.

(** X6. Swapping two adjacent digits of an accepted card number gives
    a rejected number, unless the two digits are equal or are 0 and 9. *)
Theorem luhn_check_adjacent_transposition
    (s1 : list N) (a b : N) (s2 : list N) va vb :
  luhn_check (s1 ++ a :: b :: s2) = Ok true ->
  decimal_value a = Some va ->
  decimal_value b = Some vb ->
  va <> vb -> ~ (va = 0 /\ vb = 9) -> ~ (va = 9 /\ vb = 0) ->
  luhn_check (s1 ++ b :: a :: s2) = Ok false.
Proof.
  intros Hok Ha Hb Hne H09 H90.
  pose proof (luhn_check_ok_decimal_only _ _ Hok) as Hs.
  pose proof (decimal_only_swap _ _ _ _ Hs) as Hs'.
  destruct (proj2 (luhn_check_accepts_spec _ Hs)) as [Hacc _].
  destruct (Hacc Hok) as [Hlen Hsum].
  rewrite (decimal_digits_at2 s1 a b va vb s2 Ha Hb) in Hlen, Hsum.
  assert (Hlen' : (12 <= length (decimal_digits (s1 ++ b :: a :: s2)))%nat).
  { rewrite (decimal_digits_at2 s1 b a vb va s2 Hb Ha).
    rewrite length_app in *. exact Hlen. }
  apply (luhn_check_long _ Hs' Hlen'). split; [discriminate|]. intros Hsum'.
  rewrite (decimal_digits_at2 s1 b a vb va s2 Hb Ha) in Hsum'.
  rewrite luhn_sum_app_cons2 in Hsum, Hsum'.
  pose proof (mod10_diff _ _ Hsum Hsum') as H.
  exfalso.
  destruct (luhn_pair_swap (length (decimal_digits s2)) va vb) as [?|[?|?]];
    [now apply (decimal_value_range a)|now apply (decimal_value_range b)| |
     contradiction..].
  rewrite <- H. f_equal. lia.
Qed.

Lemma luhn_check_adjacent_transposition_witness :
  luhn_check (lit "42424242424242" ++ 52%N :: 50%N :: []) = Ok true
  /\ luhn_check (lit "42424242424242" ++ 50%N :: 52%N :: []) = Ok false.
Proof.
  split; [reflexivity|].
  apply (luhn_check_adjacent_transposition
           (lit "42424242424242") 52%N 50%N [] 4 2);
    [reflexivity|reflexivity|reflexivity|lia|lia|lia].
Defined.

Lemma luhn_pair_09 m :
  luhn_term (S (S m)) 0 0 + luhn_term (S m) 0 9
  = luhn_term (S (S m)) 0 9 + luhn_term (S m) 0 0.
Proof.
  rewrite !luhn_term_zero, !luhn_term_after, Nat.even_succ, <- Nat.negb_even.
  destruct (Nat.even m); cbn [negb]; repeat case_decide; lia.
Qed.

(** X7. Swapping an adjacent 0 and 9 never changes the outcome: the
    checksum cannot see this transposition. *)
Theorem luhn_check_swap_09 (s1 : list N) (a b : N) (s2 : list N) :
  decimal_value a = Some 0 ->
  decimal_value b = Some 9 ->
  luhn_check (s1 ++ a :: b :: s2) = luhn_check (s1 ++ b :: a :: s2).
Proof.
  intros Ha Hb.
  destruct (luhn_check (s1 ++ a :: b :: s2)) as [r|e] eqn:H.
  - pose proof (luhn_check_ok_decimal_only _ _ H) as Hs.
    pose proof (decimal_only_swap _ _ _ _ Hs) as Hs'.
    rewrite (luhn_check_decimal_only _ Hs) in H.
    rewrite (luhn_check_decimal_only _ Hs'), <- H.
    rewrite (decimal_digits_at2 s1 a b 0 9 s2 Ha Hb).
    rewrite (decimal_digits_at2 s1 b a 9 0 s2 Hb Ha).
    rewrite !length_app. cbn [length].
    rewrite (luhn_sum_app_cons2 _ 0 9), (luhn_sum_app_cons2 _ 9 0).
    now rewrite <- !Z.add_assoc, luhn_pair_09.
  - destruct (luhn_check (s1 ++ b :: a :: s2)) as [r|e'] eqn:H'.
    + pose proof (luhn_check_ok_decimal_only _ _ H') as Hs'.
      pose proof (decimal_only_swap _ _ _ _ Hs') as Hs.
      destruct (luhn_check_decimal_total _ Hs) as [r' Hr]. congruence.
    + f_equal. apply luhn_check_raises in H as [-> _].
      now apply luhn_check_raises in H' as [-> _].
Qed.

Lemma luhn_check_swap_09_witness :
  luhn_check (lit "4242424242" ++ 48%N :: 57%N :: lit "0505")
  = luhn_check (lit "4242424242" ++ 57%N :: 48%N :: lit "0505").
Proof.
  apply (luhn_check_swap_09 (lit "4242424242") 48%N 57%N (lit "0505"));
    reflexivity.
Defined.

Lemma decimal_only_snoc_ascii (s : list N) w :
  decimal_only s -> 0 <= w <= 9 -> decimal_only (s ++ [Z.to_N (48 + w)]).
Proof.
  unfold decimal_only. intros Hs Hw. apply Forall_app. split; [exact Hs|].
  constructor; [|constructor]. intros _. unfold isdecimal.
  now rewrite (decimal_value_ascii w Hw).
Qed.

Lemma decimal_digits_snoc_ascii (s : list N) w :
  0 <= w <= 9 ->
  decimal_digits (s ++ [Z.to_N (48 + w)]) = decimal_digits s ++ [w].
Proof.
  intros Hw. rewrite decimal_digits_app. f_equal.
  unfold decimal_digits. cbn [omap list_omap]. now rewrite (decimal_value_ascii w Hw).
Qed.

Lemma luhn_sum_snoc ds w : luhn_sum (ds ++ [w]) = luhn_sum (ds ++ [0]) + w.
Proof. rewrite luhn_sum_app_cons. cbn [length]. now rewrite luhn_term_after. Qed.

Lemma check_digit_arith B w :
  0 <= w <= 9 -> ((B + w) mod 10 = 0 <-> w = (- B) mod 10).
Proof.
  intros Hw. pose proof (Z.mod_pos_bound (- B) 10 ltac:(lia)) as Hr.
  pose proof (Z.div_mod (- B) 10 ltac:(lia)) as Hq.
  split.
  - intros H. pose proof (Z.div_mod (B + w) 10 ltac:(lia)) as Hk.
    rewrite H in Hk. lia.
  - intros ->.
    replace (B + (- B) mod 10) with ((- ((- B) / 10)) * 10) by lia.
    apply Z.mod_mul. lia.
Qed.

(** X8. Every well-formed prefix of at least eleven digits has exactly
    one check digit: one digit 0-9 which, appended, gives an accepted
    number. It is the last digit that decides, since it is never
    doubled. *)
Theorem luhn_check_digit_unique (s : list N) :
  decimal_only s ->
  (11 <= length (decimal_digits s))%nat ->
  exists v, 0 <= v <= 9
    /\ forall w, 0 <= w <= 9 ->
         (luhn_check (s ++ [Z.to_N (48 + w)]) = Ok true <-> w = v).
Proof.
  intros Hs Hlen.
  exists ((- luhn_sum (decimal_digits s ++ [0])) mod 10).
  split; [pose proof (Z.mod_pos_bound (- luhn_sum (decimal_digits s ++ [0])) 10); lia|].
  intros w Hw.
  pose proof (decimal_only_snoc_ascii s w Hs Hw) as Hs'.
  rewrite (proj2 (luhn_check_accepts_spec _ Hs')).
  rewrite (decimal_digits_snoc_ascii s w Hw), luhn_sum_snoc, length_app.
  cbn [length]. rewrite (check_digit_arith _ w Hw).
  split; [tauto|]. intros H. split; [lia|exact H].
Qed.

Lemma luhn_check_digit_unique_witness :
  exists v, 0 <= v <= 9
    /\ forall w, 0 <= w <= 9 ->
         (luhn_check (lit "4242 4242 4242 424" ++ [Z.to_N (48 + w)]) = Ok true
          <-> w = v).
Proof.
  apply (luhn_check_digit_unique (lit "4242 4242 4242 424")).
  - apply ascii_decimal_only. vm_compute. repeat constructor.
  - vm_compute. lia.
Defined.

Lemma decimal_only_zeros n (s : list N) :
  decimal_only s -> decimal_only (replicate n 48%N ++ s).
Proof.
  unfold decimal_only. intros Hs. apply Forall_app. split; [|exact Hs].
  apply Forall_replicate. reflexivity.
Qed.

Lemma decimal_digits_zeros n (s : list N) :
  decimal_digits (replicate n 48%N ++ s) = replicate n 0 ++ decimal_digits s.
Proof.
  rewrite decimal_digits_app. f_equal. induction n as [|n IH]; [reflexivity|].
  cbn [replicate]. unfold decimal_digits in *. cbn [omap list_omap].
  change (decimal_value 48%N) with (Some 0). now rewrite IH.
Qed.

Lemma luhn_sum_zeros n ds : luhn_sum (replicate n 0 ++ ds) = luhn_sum ds.
Proof.
  induction n as [|n IH]; [reflexivity|]. cbn [replicate app].
  now rewrite luhn_sum_cons, luhn_term_zero, IH.
Qed.

(** X9. Writing zeros in front of a well-formed card number of at
    least twelve digits does not change the outcome: which digits are
    doubled is counted from the last digit, not from the first. *)
Theorem luhn_check_leading_zeros n (s : list N) :
  decimal_only s ->
  (12 <= length (decimal_digits s))%nat ->
  luhn_check (replicate n 48%N ++ s) = luhn_check s.
Proof.
  intros Hs Hlen.
  rewrite (luhn_check_decimal_only _ (decimal_only_zeros n s Hs)).
  rewrite (luhn_check_decimal_only _ Hs).
  rewrite decimal_digits_zeros, luhn_sum_zeros, length_app, length_replicate.
  replace (Z.of_nat (n + length (decimal_digits s)) <? 12) with false
    by (symmetry; apply Z.ltb_ge; lia).
  now replace (Z.of_nat (length (decimal_digits s)) <? 12) with false
    by (symmetry; apply Z.ltb_ge; lia).
Qed.

Lemma luhn_check_leading_zeros_witness :
  luhn_check (replicate 3 48%N ++ lit "4242424242424242")
  = luhn_check (lit "4242424242424242").
Proof.
  apply (luhn_check_leading_zeros 3 (lit "4242424242424242")).
  - apply ascii_decimal_only. vm_compute. repeat constructor.
  - vm_compute. lia.
Defined.

(** * Further properties of [confirm_payment] *)

(** X10. For a card number whose digit characters are all decimal the
    handler returns a result. It is "succeeded" exactly when at least
    twelve digits remain and their Luhn sum is a multiple of ten, and
    "failed" otherwise; a transaction id is present exactly in the
    first case, and is then "txn_" followed by the first twelve
    characters of the drawn identifier. *)
Theorem confirm_payment_outcome payload uuid4_hex :
  decimal_only (card_number payload) ->
  exists r,
    confirm_payment payload uuid4_hex = Ok r
    /\ (status r = lit "succeeded" \/ status r = lit "failed")
    /\ (status r = lit "succeeded" <->
        (12 <= length (decimal_digits (card_number payload)))%nat
        /\ luhn_sum (decimal_digits (card_number payload)) mod 10 = 0)
    /\ (status r = lit "succeeded" ->
        transaction_id r = Some (lit "txn_" ++ take 12 uuid4_hex))
    /\ (status r = lit "failed" -> transaction_id r = None).
Proof.
  intros Hs. rewrite confirm_payment_gate.
  destruct (luhn_check_accepts_spec _ Hs) as [[b Hb] Hiff]. rewrite Hb in *.
  destruct b; eexists; (split; [reflexivity|]); cbn [status transaction_id].
  - split; [now left|]. split; [|split; [reflexivity|discriminate]].
    split; [intros _; now apply Hiff|reflexivity].
  - split; [now right|]. split; [|split; [discriminate|reflexivity]].
    split; [discriminate|]. intros H. apply Hiff in H. discriminate.
Qed.

Lemma confirm_payment_outcome_witness :
  exists r,
    confirm_payment visa_payload (lit "0123456789abcdef0123456789abcdef") = Ok r
    /\ (status r = lit "succeeded" \/ status r = lit "failed")
    /\ (status r = lit "succeeded" <->
        (12 <= length (decimal_digits (card_number visa_payload)))%nat
        /\ luhn_sum (decimal_digits (card_number visa_payload)) mod 10 = 0)
    /\ (status r = lit "succeeded" ->
        transaction_id r
        = Some (lit "txn_" ++ take 12 (lit "0123456789abcdef0123456789abcdef")))
    /\ (status r = lit "failed" -> transaction_id r = None).
Proof.
  apply (confirm_payment_outcome visa_payload).
  apply ascii_decimal_only. vm_compute. repeat constructor.
Defined.

(** X11. [confirm_payment] returns a result exactly when every digit
    character of the card number is decimal; otherwise it raises, and
    the exception is the [ValueError] of [luhn_check]. No other field
    of the payload and no drawn identifier can make it raise. *)
Theorem confirm_payment_returns_iff payload uuid4_hex :
  ((exists r, confirm_payment payload uuid4_hex = Ok r)
   <-> decimal_only (card_number payload))
  /\ (confirm_payment payload uuid4_hex = Raise ValueError
      <-> ~ decimal_only (card_number payload))
  /\ (forall e, confirm_payment payload uuid4_hex = Raise e -> e = ValueError).
Proof.
  rewrite confirm_payment_gate.
  destruct (luhn_check (card_number payload)) as [b|e] eqn:H.
  - pose proof (luhn_check_ok_decimal_only _ _ H) as Hs.
    split; [|split].
    + split; [auto|]. intros _. destruct b; eauto.
    + split; [destruct b; discriminate|]. intros Hn. now destruct Hn.
    + intros e He. destruct b; discriminate.
  - destruct (luhn_check_raises _ _ H) as [-> Hn].
    split; [|split].
    + split; [intros [r Hr]; discriminate|]. intros Hs. now destruct Hn.
    + split; auto.
    + intros e [= <-]. reflexivity.
Qed.

(** * Further properties of [list_stations] *)

(** The loop body by cases on the capacity read from the document. *)
Lemma station_view_cases now it :
  station_view now it =
    match capacity_of it with
    | VInt c =>
        if c + 1 =? 0 then Raise ZeroDivisionError
        else
          Ok (<["id" := VStr (str_of (default VNone (it !! "_id")))]>
                (<["available" := VInt (Z.max 0 (c - now mod (c + 1)))]> it))
    | _ => Raise TypeError
    end.
Proof.
  unfold station_view. destruct (capacity_of it) as [|c| |]; try reflexivity.
  cbn [as_int mbind result_bind]. unfold mod_.
  destruct (c + 1 =? 0); [reflexivity|]. cbn [mbind result_bind].
  now rewrite lookup_insert_ne by discriminate.
Qed.








(** X14. Whatever integer capacity a document holds, the availability
    written for it is never negative and never above the capacity: for
    a capacity of one or more it is [capacity - now mod (capacity + 1)],
    and for a capacity of zero or less [max] clamps it to 0. *)
Theorem station_view_available_range now it it' c :
  station_view now it = Ok it' ->
  capacity_of it = VInt c ->
  exists a, it' !! "available" = Some (VInt a)
    /\ 0 <= a <= Z.max 0 c
    /\ (1 <= c -> a = c - now mod (c + 1))
    /\ (c <= 0 -> a = 0).
Proof.
  intros Hv Hc. rewrite station_view_cases, Hc in Hv.
  destruct (Z.eqb_spec (c + 1) 0) as [|Hne]; [discriminate|]. injection Hv as <-.
  eexists. rewrite lookup_insert_ne by discriminate. rewrite lookup_insert_eq.
  split; [reflexivity|].
  destruct (Z.lt_ge_cases 0 (c + 1)) as [Hpos|Hneg].
  - pose proof (Z.mod_pos_bound now (c + 1) Hpos). lia.
  - pose proof (Z.mod_neg_bound now (c + 1) ltac:(lia)). lia.
Qed.

Lemma station_view_available_range_witness :
  exists a,
    (<["id" := VStr (lit "None")]>
       (<["available" := VInt 0]> ({["capacity" := VInt (-3)]} : gmap string value)))
      !! "available" = Some (VInt a)
    /\ 0 <= a <= Z.max 0 (-3)
    /\ (1 <= -3 -> a = -3 - 37 mod (-3 + 1))
    /\ (-3 <= 0 -> a = 0).
Proof.
  apply (station_view_available_range 37 {["capacity" := VInt (-3)]});
    reflexivity.
Defined.

(** X15. Viewing a document that was already viewed at the same second
    changes nothing: values of ["available"] and ["id"] found in a
    document are overwritten, never read. *)
Theorem station_view_idempotent now it it' :
  station_view now it = Ok it' -> station_view now it' = Ok it'.
Proof.
  intros Hv. rewrite station_view_cases in Hv.
  destruct (capacity_of it) as [|c| |] eqn:Hc; try discriminate.
  destruct (c + 1 =? 0) eqn:Hz; [discriminate|]. injection Hv as <-.
  rewrite station_view_cases.
  assert (Hcap : capacity_of
            (<["id" := VStr (str_of (default VNone (it !! "_id")))]>
               (<["available" := VInt (Z.max 0 (c - now mod (c + 1)))]> it))
          = VInt c).
  { unfold capacity_of in *. now rewrite !lookup_insert_ne by discriminate. }
  rewrite Hcap, Hz. f_equal.
  rewrite !lookup_insert_ne by discriminate.
  apply map_eq. intros k.
  destruct (decide (k = "id")) as [->|Hid];
    [now rewrite !lookup_insert_eq|].
  destruct (decide (k = "available")) as [->|Hav]; simplify_map_eq; reflexivity.
Qed.

Lemma station_view_idempotent_witness :
  exists it',
    station_view 37 {["capacity" := VInt 6; "_id" := VObjectId (lit "65f0")]} = Ok it'
    /\ station_view 37 it' = Ok it'.
Proof.
  eexists. split; [reflexivity|].
  apply (station_view_idempotent 37
           {["capacity" := VInt 6; "_id" := VObjectId (lit "65f0")]}).
  reflexivity.
Defined.
